(** * smrng: the 16-bit generator of rng.py, its drop test, the minikraid
    protocol, the cycle finder and the sweep over all seeds.

    Python integers are modelled as [Z].  The module's globals ([seed],
    [healths]) and its standard output form the record [world]; every
    function of the script is a computation in a state monad over [world]
    that can also fail (an exception, or a [while] loop that runs out of the
    fuel it is given). *)

From stdpp Require Import gmap list fin_maps.
From Stdlib Require Import ZArith Lia.

Local Open Scope Z_scope.

(** ** The world: globals and standard output *)

(** One line written by [print]. *)
Inductive line : Type :=
  | PrintInt (n : Z)                    (* print(s) *)
  | PrintPrefix (before length : Z)     (* print(f"prefix {before} length {length}") *)
  | PrintList (l : list Z).             (* print(healths) *)

Record world : Type := World {
  seed : Z;
  healths : list Z;
  stdout : list line
}.

Definition set_seed (v : Z) (w : world) : world :=
  {| seed := v; healths := healths w; stdout := stdout w |}.

Definition set_healths (h : list Z) (w : world) : world :=
  {| seed := seed w; healths := h; stdout := stdout w |}.

Definition put_line (l : line) (w : world) : world :=
  {| seed := seed w; healths := healths w; stdout := stdout w ++ [l] |}.

(** ** The monad of the script *)

Definition M (A : Type) : Type := world → option (A * world).

#[export] Instance M_ret : MRet M := λ A a w, Some (a, w).

#[export] Instance M_bind : MBind M := λ A B k m w,
  match m w with
  | Some (a, w') => k a w'
  | None => None
  end.

Definition fail {A} : M A := λ _, None.

Definition get_seed : M Z := λ w, Some (seed w, w).
Definition get_healths : M (list Z) := λ w, Some (healths w, w).
Definition assign_seed (v : Z) : M unit := λ w, Some (tt, set_seed v w).
Definition print (l : line) : M unit := λ w, Some (tt, put_line l w).

(** [for i in range(n): body] where the body ignores [i]. *)
Fixpoint for_range (n : nat) (body : M unit) : M unit :=
  match n with
  | O => mret tt
  | S n' => body ;; for_range n' body
  end.

(** [for x in l: body x]. *)
Fixpoint for_each (l : list Z) (body : Z → M unit) : M unit :=
  match l with
  | [] => mret tt
  | x :: l' => body x ;; for_each l' body
  end.

(** ** rng *)

(** The arithmetic of [rng], on the value of the global. *)
Definition rng_result (seed : Z) : Z :=
  let result := Z.land seed 0xFF * 5 in
  let hi := Z.land (Z.land (Z.shiftr seed 8) 0xFF * 5) 0xFF in
  let result := result + (Z.shiftl hi 8 + 0x100) in
  let result := Z.land (Z.shiftr result 16 + result + 0x11) 0xFFFF in
  result.

Definition rng : M Z :=
  s ← get_seed;
  let result := rng_result s in
  assign_seed result ;;
  mret result.

(** ** drop *)

(** The loop [while val == 0: val = rng() & 0xFF]; each iteration takes one
    unit of fuel. *)
Fixpoint drop_while (fuel : nat) (val : Z) : M Z :=
  if val =? 0 then
    match fuel with
    | O => fail
    | S fuel' => r ← rng; drop_while fuel' (Z.land r 0xFF)
    end
  else mret val.

Definition drop (fuel : nat) : M bool :=
  val ← drop_while fuel 0;
  mret (val =? 1).

(** ** minikraid *)

(** Python's [int] on a [bool]. *)
Definition int (b : bool) : Z := if b then 1 else 0.

Definition minikraid (fuel : nat) : M Z :=
  rng ;; a ← drop fuel;
  rng ;; b ← drop fuel;
  rng ;; c ← drop fuel;
  rng ;; d ← drop fuel;
  for_range 176 (rng ;; mret tt) ;;
  e ← drop fuel;
  mret (int a + int b + int c + int d + int e).

(** ** findloop *)

(** The loop [while seed not in seen: seen[seed] = i; rng(); i += 1]; it
    yields the dictionary and the counter it stops with. *)
Fixpoint findloop_while (fuel : nat) (seen : gmap Z Z) (i : Z) : M (gmap Z Z * Z) :=
  s ← get_seed;
  match seen !! s with
  | Some _ => mret (seen, i)
  | None =>
      match fuel with
      | O => fail
      | S fuel' =>
          let seen := <[s := i]> seen in
          rng ;;
          findloop_while fuel' seen (i + 1)
      end
  end.

(** [seen[k]], a KeyError when the key is absent. *)
Definition getitem (seen : gmap Z Z) (k : Z) : M Z :=
  match seen !! k with
  | Some v => mret v
  | None => fail
  end.

Definition findloop (fuel : nat) : M unit :=
  '(seen, i) ← findloop_while fuel ∅ 0;
  s ← get_seed;
  before ← getitem seen s;
  let length := i - before in
  print (PrintPrefix before length).

(** ** The sweep over all seeds *)

(** [healths[k] += 1] with Python's indexing: a negative index counts from
    the end, an index out of range raises IndexError. *)
Definition incr_item (l : list Z) (k : Z) : option (list Z) :=
  let n := Z.of_nat (length l) in
  let j := if k <? 0 then k + n else k in
  if (0 <=? j) && (j <? n) then
    match l !! Z.to_nat j with
    | Some x => Some (<[Z.to_nat j := x + 1]> l)
    | None => None
    end
  else None.

Definition incr_healths (k : Z) : M unit :=
  λ w, match incr_item (healths w) k with
       | Some h => Some (tt, set_healths h w)
       | None => None
       end.

(** The body of [for s in range(65536)]. *)
Definition sweep_body (fuel : nat) (s : Z) : M unit :=
  assign_seed s ;;
  num_healths ← minikraid fuel;
  (if num_healths =? 2 then
     print (PrintInt s) ;;
     assign_seed s ;;
     findloop fuel
   else mret tt) ;;
  k ← minikraid fuel;
  incr_healths k.

(** The globals after [seed = 0] and [healths = [0, 0, 0, 0, 0, 0]]. *)
Definition initial_world : world :=
  {| seed := 0; healths := [0; 0; 0; 0; 0; 0]; stdout := [] |}.

(** The module's statements after the definitions. *)
Definition main (fuel : nat) : M unit :=
  for_each (seqZ 0 65536) (sweep_body fuel) ;;
  h ← get_healths;
  print (PrintList h).

Definition run_main (fuel : nat) : option (unit * world) := main fuel initial_world.


(** ** Orbits of the generator *)

(** One call of [rng] seen on the world, and [n] of them. *)
Definition tick (w : world) : world := set_seed (rng_result (seed w)) w.
Definition ticks (n : nat) (w : world) : world := Nat.iter n tick w.

(** The state [n] calls of [rng] after state [s]. *)
Definition orbit (n : nat) (s : Z) : Z := Nat.iter n rng_result s.

Definition low_byte (s : Z) : Z := Z.land s 0xFF.

(** The number of calls of [rng] that [drop] makes from world [w]. *)
Definition drop_ticks (w : world) : nat :=
  if low_byte (seed (tick w)) =? 0 then 2%nat else 1%nat.

(** The world [drop] leaves and the value it returns, from world [w]. *)
Definition after_drop (w : world) : world := ticks (drop_ticks w) w.
Definition drop_value (w : world) : bool := low_byte (seed (after_drop w)) =? 1.

(** [w'] is [w] after some calls of [rng] and nothing else. *)
Definition reaches (w w' : world) : Prop := ∃ k : nat, w' = ticks k w.

(** The dictionary of [findloop] after [n] iterations from state [s0]: each
    of the first [n] states of the orbit is mapped to its step index. *)
Definition records (s0 : Z) (n : nat) (seen : gmap Z Z) : Prop :=
  ∀ k v, seen !! k = Some v ↔ ∃ m : nat, (m < n)%nat ∧ v = Z.of_nat m ∧ orbit m s0 = k.

(** The first [n] states of the orbit of [s0] are pairwise different. *)
Definition distinct_prefix (s0 : Z) (n : nat) : Prop :=
  ∀ i j : nat, (i < n)%nat → (j < n)%nat → orbit i s0 = orbit j s0 → i = j.

(** ** The transition in the words of the specification (section 4.1) *)

Definition combined_spec (state : Z) : Z :=
  let low := Z.land state 0xFF in
  let high := Z.land (Z.shiftr state 8) 0xFF in
  let r1 := low * 5 in
  let r2 := Z.land (high * 5) 0xFF in
  r1 + Z.shiftl r2 8 + 0x100.

Definition advance_spec (state : Z) : Z :=
  let combined := combined_spec state in
  let folded := Z.land (Z.shiftr combined 16 + combined + 0x11) 0xFFFF in
  folded.

(** Python's [sum] of a list of integers. *)
Definition sum (l : list Z) : Z := foldr Z.add 0 l.

(** What one pass of the sweep for seed [s] may write: nothing, or the seed
    followed by the line of [findloop]. *)
Definition pass_output (s : Z) (out : list line) : Prop :=
  out = [] ∨
  ∃ prefix length : Z,
    0 ≤ prefix ∧ 2 ≤ length ∧ prefix + length ≤ 65536 ∧
    out = [PrintInt s; PrintPrefix prefix length].

(** * Properties *)

(** ** Arithmetic of the transition *)

Lemma land_byte (x : Z) : Z.land x 0xFF = x mod 256.
Proof. change 0xFF with (Z.ones 8). by rewrite Z.land_ones. Qed.

Lemma land_word (x : Z) : Z.land x 0xFFFF = x mod 65536.
Proof. change 0xFFFF with (Z.ones 16). by rewrite Z.land_ones. Qed.

Lemma rng_result_advance_spec (s : Z) : rng_result s = advance_spec s.
Proof.
  unfold rng_result, advance_spec, combined_spec; cbv zeta.
  by rewrite (Z.add_assoc (Z.land s 0xFF * 5) _ 0x100).
Qed.

(** The transition in terms of division and remainder. *)
Lemma combined_spec_arith (s : Z) :
  combined_spec s = s mod 256 * 5 + ((s / 256) mod 256 * 5) mod 256 * 256 + 256.
Proof.
  unfold combined_spec; cbv zeta.
  rewrite !land_byte, Z.shiftr_div_pow2, Z.shiftl_mul_pow2 by lia.
  reflexivity.
Qed.

Lemma rng_result_arith (s : Z) :
  rng_result s =
    (combined_spec s / 65536 + combined_spec s + 17) mod 65536.
Proof.
  rewrite rng_result_advance_spec. unfold advance_spec; cbv zeta.
  rewrite land_word, Z.shiftr_div_pow2 by lia. reflexivity.
Qed.

(** [lia], once division and remainder by constants are replaced by their
    defining equations. *)
Ltac lia_div := Z.to_euclidean_division_equations; lia.

Lemma combined_spec_bounds (s : Z) : 256 ≤ combined_spec s < 2 * 65536.
Proof. rewrite combined_spec_arith. lia_div. Qed.

Lemma rng_result_range (s : Z) : 0 ≤ rng_result s < 65536.
Proof. rewrite rng_result_arith. lia_div. Qed.

(** The low byte of the new state depends on the old low byte and on the
    carry out of bit 15 only. *)
Lemma low_byte_rng_result (s : Z) :
  low_byte (rng_result s) = (s mod 256 * 5 + combined_spec s / 65536 + 17) mod 256.
Proof.
  unfold low_byte. rewrite land_byte, rng_result_arith.
  pose proof (combined_spec_bounds s) as Hb.
  rewrite combined_spec_arith in *.
  set (l := s mod 256) in *. set (r := ((s / 256) mod 256 * 5) mod 256) in *.
  assert (0 ≤ l < 256) by (subst l; lia_div).
  assert (0 ≤ r < 256) by (subst r; lia_div).
  clearbody l r. lia_div.
Qed.

(** The states whose successor has a zero low byte. *)
Lemma low_byte_zero_iff (s : Z) :
  low_byte (rng_result s) = 0 ↔
    (low_byte s = 99 ∧ combined_spec s < 65536) ∨
    (low_byte s = 150 ∧ 65536 ≤ combined_spec s).
Proof.
  rewrite low_byte_rng_result. unfold low_byte. rewrite land_byte.
  pose proof (combined_spec_bounds s) as Hb.
  set (c := combined_spec s) in *. set (l := s mod 256).
  assert (0 ≤ l < 256) by (subst l; lia_div).
  clearbody c l.
  assert (c / 65536 = 0 ∧ c < 65536 ∨ c / 65536 = 1 ∧ 65536 ≤ c) as [[-> ?]|[-> ?]]
    by lia_div; lia_div.
Qed.

(** After a state with a zero low byte the low byte is 0x11 or 0x12. *)
Lemma low_byte_after_zero (s : Z) :
  low_byte s = 0 → low_byte (rng_result s) = 17 ∨ low_byte (rng_result s) = 18.
Proof.
  intros Hs. rewrite low_byte_rng_result.
  unfold low_byte in Hs. rewrite land_byte in Hs. rewrite Hs.
  pose proof (combined_spec_bounds s) as Hb.
  assert (combined_spec s / 65536 = 0 ∨ combined_spec s / 65536 = 1) as [-> | ->]
    by lia_div; [by left | by right].
Qed.

(** ** Running the monad *)

Lemma bind_run {A B} (m : M A) (k : A → M B) (w : world) :
  (m ≫= k) w = match m w with Some (a, w') => k a w' | None => None end.
Proof. reflexivity. Qed.

Lemma bind_run_Some {A B} (m : M A) (k : A → M B) (w w' : world) (a : A) :
  m w = Some (a, w') → (m ≫= k) w = k a w'.
Proof. intros H. by rewrite bind_run, H. Qed.

Lemma rng_run (w : world) : rng w = Some (rng_result (seed w), tick w).
Proof. reflexivity. Qed.

Lemma ticks_S_r (n : nat) (w : world) : ticks (S n) w = ticks n (tick w).
Proof. apply Nat.iter_succ_r. Qed.

Lemma ticks_add (n m : nat) (w : world) : ticks (n + m) w = ticks n (ticks m w).
Proof. apply Nat.iter_add. Qed.

Lemma seed_ticks (n : nat) (w : world) : seed (ticks n w) = orbit n (seed w).
Proof.
  induction n as [|n IH]; [done|].
  change (rng_result (seed (ticks n w)) = rng_result (orbit n (seed w))).
  by rewrite IH.
Qed.

Lemma healths_ticks (n : nat) (w : world) : healths (ticks n w) = healths w.
Proof. induction n as [|n IH]; done. Qed.

Lemma stdout_ticks (n : nat) (w : world) : stdout (ticks n w) = stdout w.
Proof. induction n as [|n IH]; done. Qed.

Lemma orbit_S_r (n : nat) (s : Z) : orbit (S n) s = orbit n (rng_result s).
Proof. apply Nat.iter_succ_r. Qed.

Lemma orbit_range (n : nat) (s : Z) : 0 ≤ orbit (S n) s < 65536.
Proof. apply rng_result_range. Qed.

Lemma for_range_rng (n : nat) (w : world) :
  for_range n (rng ;; mret tt) w = Some (tt, ticks n w).
Proof.
  revert w. induction n as [|n IH]; intros w; [done|].
  rewrite ticks_S_r, <- IH. reflexivity.
Qed.

(** ** drop *)

Lemma drop_while_nonzero (fuel : nat) (v : Z) (w : world) :
  v ≠ 0 → drop_while fuel v w = Some (v, w).
Proof.
  intros Hv. destruct fuel; cbn; by destruct (Z.eqb_spec v 0).
Qed.

Lemma drop_while_zero (fuel : nat) (w : world) :
  drop_while (S fuel) 0 w = drop_while fuel (low_byte (seed (tick w))) (tick w).
Proof. reflexivity. Qed.

Lemma drop_ticks_nonzero (w : world) :
  low_byte (seed (ticks (drop_ticks w) w)) ≠ 0.
Proof.
  unfold drop_ticks. destruct (Z.eqb_spec (low_byte (seed (tick w))) 0) as [Hz|Hz]; [|done].
  change (ticks 2 w) with (tick (tick w)).
  destruct (low_byte_after_zero _ Hz) as [H|H]; cbn in *; rewrite H; lia.
Qed.

Lemma drop_ticks_first (w : world) (k : nat) :
  (1 ≤ k < drop_ticks w)%nat → low_byte (seed (ticks k w)) = 0.
Proof.
  unfold drop_ticks. destruct (Z.eqb_spec (low_byte (seed (tick w))) 0) as [Hz|Hz]; [|lia].
  intros Hk. by replace k with 1%nat by lia.
Qed.

Lemma drop_while_run (fuel : nat) (w : world) :
  (2 ≤ fuel)%nat →
  drop_while fuel 0 w =
    Some (low_byte (seed (ticks (drop_ticks w) w)), ticks (drop_ticks w) w).
Proof.
  intros Hf. pose proof (drop_ticks_nonzero w) as Hnz. revert Hnz.
  destruct fuel as [|[|fuel]]; [lia..|]. rewrite drop_while_zero.
  unfold drop_ticks. destruct (Z.eqb_spec (low_byte (seed (tick w))) 0) as [Hz|Hz]; intros Hnz.
  - rewrite Hz, drop_while_zero. by apply drop_while_nonzero.
  - by apply drop_while_nonzero.
Qed.

Lemma drop_run (fuel : nat) (w : world) :
  (2 ≤ fuel)%nat →
  drop fuel w =
    Some (low_byte (seed (ticks (drop_ticks w) w)) =? 1, ticks (drop_ticks w) w).
Proof.
  intros Hf. unfold drop. by rewrite (bind_run_Some _ _ _ _ _ (drop_while_run fuel w Hf)).
Qed.

Lemma drop_run' (fuel : nat) (w : world) :
  (2 ≤ fuel)%nat → drop fuel w = Some (drop_value w, after_drop w).
Proof. apply drop_run. Qed.

(** ** What only calls [rng] only moves the seed along its orbit *)

Lemma reaches_refl (w : world) : reaches w w.
Proof. by exists 0%nat. Qed.

Lemma reaches_trans (w1 w2 w3 : world) : reaches w1 w2 → reaches w2 w3 → reaches w1 w3.
Proof. intros [k ->] [k' ->]. exists (k' + k)%nat. by rewrite ticks_add. Qed.

Lemma reaches_tick (w : world) : reaches w (tick w).
Proof. by exists 1%nat. Qed.

Lemma reaches_ticks (n : nat) (w : world) : reaches w (ticks n w).
Proof. by exists n. Qed.

Lemma reaches_after_drop (w : world) : reaches w (after_drop w).
Proof. by exists (drop_ticks w). Qed.

Lemma reaches_healths (w w' : world) : reaches w w' → healths w' = healths w.
Proof. intros [k ->]. apply healths_ticks. Qed.

Lemma reaches_stdout (w w' : world) : reaches w w' → stdout w' = stdout w.
Proof. intros [k ->]. apply stdout_ticks. Qed.

Create HintDb reach.
#[local] Hint Resolve reaches_refl reaches_tick reaches_ticks reaches_after_drop : reach.

(** ** minikraid *)

(** Rewrite the run of the first call in a sequence. *)
Ltac run_call Hf :=
  lazymatch goal with
  | |- (rng ≫= _) ?w = _ =>
      rewrite (bind_run_Some rng _ w _ _ (rng_run w))
  | |- (drop ?fuel ≫= _) ?w = _ =>
      rewrite (bind_run_Some (drop fuel) _ w _ _ (drop_run' fuel w Hf))
  | |- (for_range ?n ?body ≫= _) ?w = _ =>
      rewrite (bind_run_Some (for_range n body) _ w _ _ (for_range_rng n w))
  end.

Lemma minikraid_run (fuel : nat) (w : world) :
  (2 ≤ fuel)%nat →
  let w1 := tick w in let w2 := tick (after_drop w1) in
  let w3 := tick (after_drop w2) in let w4 := tick (after_drop w3) in
  let w5 := ticks 176 (after_drop w4) in
  minikraid fuel w =
    Some (int (drop_value w1) + int (drop_value w2) + int (drop_value w3)
          + int (drop_value w4) + int (drop_value w5), after_drop w5).
Proof.
  intros Hf. cbv zeta. unfold minikraid. do 10 run_call Hf. reflexivity.
Qed.

Lemma int_range (b : bool) : 0 ≤ int b ≤ 1.
Proof. destruct b; cbn; lia. Qed.

Lemma minikraid_total (fuel : nat) (w : world) :
  (2 ≤ fuel)%nat →
  ∃ n w', minikraid fuel w = Some (n, w') ∧ 0 ≤ n ≤ 5 ∧ reaches w w'.
Proof.
  intros Hf. eexists _, _. split; [by apply minikraid_run|]. split.
  - repeat match goal with |- context [int ?b] =>
      let H := fresh in pose proof (int_range b) as H; generalize dependent (int b); intros
    end. lia.
  - repeat (eapply reaches_trans; [|by eauto with reach]). eauto with reach.
Qed.

(** ** findloop *)

Lemma findloop_while_unfold (fuel : nat) (seen : gmap Z Z) (i : Z) (w : world) :
  findloop_while fuel seen i w =
    match seen !! seed w with
    | Some _ => Some ((seen, i), w)
    | None =>
        match fuel with
        | O => None
        | S fuel' => findloop_while fuel' (<[seed w := i]> seen) (i + 1) (tick w)
        end
    end.
Proof.
  destruct fuel; cbn; rewrite bind_run; cbn; by destruct (seen !! seed w).
Qed.

Lemma records_empty (s0 : Z) : records s0 0 ∅.
Proof.
  intros k v. rewrite lookup_empty. split; [done|]. intros (m & Hm & _). lia.
Qed.

Lemma records_distinct (s0 : Z) (n : nat) (seen : gmap Z Z) :
  records s0 n seen → distinct_prefix s0 n.
Proof.
  intros Hrec i j Hi Hj Heq.
  assert (seen !! orbit i s0 = Some (Z.of_nat i)) as H1 by (apply Hrec; eauto).
  assert (seen !! orbit j s0 = Some (Z.of_nat j)) as H2 by (apply Hrec; eauto).
  rewrite Heq, H2 in H1. injection H1. lia.
Qed.

Lemma records_insert (s0 : Z) (n : nat) (seen : gmap Z Z) :
  records s0 n seen →
  seen !! orbit n s0 = None →
  records s0 (S n) (<[orbit n s0 := Z.of_nat n]> seen).
Proof.
  intros Hrec Hnone k v. destruct (decide (orbit n s0 = k)) as [<-|Hne].
  - rewrite lookup_insert_eq. split.
    + intros [= <-]. exists n. auto with lia.
    + intros (m & Hm & -> & Hk). destruct (decide (m = n)) as [->|Hmn]; [done|].
      assert (seen !! orbit n s0 = Some (Z.of_nat m)) as H
        by (apply Hrec; exists m; auto with lia).
      congruence.
  - rewrite lookup_insert_ne by done. unfold records in Hrec. rewrite Hrec. split.
    + intros (m & Hm & -> & Hk). exists m. auto with lia.
    + intros (m & Hm & -> & Hk). exists m. split_and!; [|done..].
      destruct (decide (m = n)) as [->|]; [done|lia].
Qed.

(** Pigeonhole: pairwise different 16-bit states are at most 65536. *)
Lemma orbit_pigeonhole (s0 : Z) (a n : nat) :
  (∀ i j : nat, (a ≤ i < a + n)%nat → (a ≤ j < a + n)%nat →
                orbit i s0 = orbit j s0 → i = j) →
  (∀ i : nat, (a ≤ i < a + n)%nat → 0 ≤ orbit i s0 < 65536) →
  Z.of_nat n ≤ 65536.
Proof.
  intros Hinj Hrange.
  set (l := (λ i, orbit i s0) <$> seq a n).
  assert (NoDup l) as Hnd.
  { apply NoDup_fmap_2_strong; [|apply NoDup_seq].
    intros i j Hi%elem_of_seq Hj%elem_of_seq. by apply Hinj. }
  assert (l ⊆+ seqZ 0 65536) as Hsub.
  { apply NoDup_submseteq; [done|]. intros x (i & -> & Hi%elem_of_seq)%list_elem_of_fmap.
    apply elem_of_seqZ. specialize (Hrange i Hi). lia. }
  apply submseteq_length in Hsub.
  unfold l in Hsub. rewrite length_fmap, length_seq, length_seqZ in Hsub. lia.
Qed.

Lemma distinct_prefix_bound_any (s0 : Z) (n : nat) :
  distinct_prefix s0 n → Z.of_nat n ≤ 65537.
Proof.
  intros Hd. destruct n as [|n]; [lia|].
  enough (Z.of_nat n ≤ 65536) by lia.
  apply (orbit_pigeonhole s0 1 n).
  - intros i j Hi Hj. apply Hd; lia.
  - intros [|i] Hi; [lia|]. apply orbit_range.
Qed.

Lemma distinct_prefix_bound (s0 : Z) (n : nat) :
  0 ≤ s0 < 65536 → distinct_prefix s0 n → Z.of_nat n ≤ 65536.
Proof.
  intros Hs Hd. apply (orbit_pigeonhole s0 0 n).
  - intros i j Hi Hj. apply Hd; lia.
  - intros [|i] Hi; [done|]. apply orbit_range.
Qed.

Section findloop_bound.
(** [B] bounds the number of pairwise different states at the start of the
    orbit of world [w0]'s seed. *)
Variable w0 : world.
Variable B : Z.
Hypothesis HB : ∀ m : nat, distinct_prefix (seed w0) m → Z.of_nat m ≤ B.

Lemma findloop_while_run (fuel n : nat) (seen : gmap Z Z) :
  records (seed w0) n seen →
  size seen = n →
  B ≤ Z.of_nat n + Z.of_nat fuel →
  ∃ (n' : nat) (seen' : gmap Z Z),
    findloop_while fuel seen (Z.of_nat n) (ticks n w0)
      = Some ((seen', Z.of_nat n'), ticks n' w0) ∧
    records (seed w0) n' seen' ∧
    size seen' = n' ∧
    is_Some (seen' !! orbit n' (seed w0)).
Proof.
  revert n seen. induction fuel as [|fuel IH]; intros n seen Hrec Hsize Hfuel;
    rewrite findloop_while_unfold, seed_ticks;
    destruct (seen !! orbit n (seed w0)) as [v|] eqn:Hlook;
    try (exists n, seen; rewrite Hlook; by eauto).
  - pose proof (records_insert _ _ _ Hrec Hlook) as Hrec'.
    apply records_distinct, HB in Hrec'. lia.
  - pose proof (records_insert _ _ _ Hrec Hlook) as Hrec'.
    replace (Z.of_nat n + 1) with (Z.of_nat (S n)) by lia.
    change (tick (ticks n w0)) with (ticks (S n) w0).
    apply IH; [done| |lia].
    rewrite map_size_insert_None by done. by rewrite Hsize.
Qed.

Lemma findloop_run (fuel : nat) :
  B ≤ Z.of_nat fuel →
  ∃ (p c : nat) (seen : gmap Z Z),
    (1 ≤ c)%nat ∧ Z.of_nat (p + c) ≤ B ∧
    findloop_while fuel ∅ 0 w0 = Some ((seen, Z.of_nat (p + c)), ticks (p + c) w0) ∧
    size seen = (p + c)%nat ∧
    findloop fuel w0
      = Some (tt, put_line (PrintPrefix (Z.of_nat p) (Z.of_nat c)) (ticks (p + c) w0)) ∧
    orbit (p + c) (seed w0) = orbit p (seed w0) ∧
    distinct_prefix (seed w0) (p + c).
Proof.
  intros Hfuel.
  destruct (findloop_while_run fuel 0 ∅ (records_empty _))
    as (n & seen & Hrun & Hrec & Hsize & [v Hv]); [apply map_size_empty|lia|].
  pose proof Hv as (p & Hp & -> & Horb)%Hrec.
  exists p, (n - p)%nat, seen. replace (p + (n - p))%nat with n by lia.
  split_and!;
    [lia|by apply HB, (records_distinct _ _ seen)|done|done| |done
    |by eapply records_distinct].
  unfold findloop. rewrite (bind_run_Some _ _ _ _ _ Hrun). cbn.
  rewrite bind_run. cbn. rewrite seed_ticks. unfold getitem. rewrite Hv. cbn.
  replace (Z.of_nat (n - p)) with (Z.of_nat n - Z.of_nat p) by lia. reflexivity.
Qed.
End findloop_bound.

(** ** The sweep *)

Lemma sum_insert (l : list Z) (i : nat) (x y : Z) :
  l !! i = Some x → sum (<[i := y]> l) = sum l - x + y.
Proof.
  revert i. induction l as [|z l IH]; intros [|i] Hi; try done.
  - injection Hi as ->. cbn. lia.
  - change (z + sum (<[i := y]> l) = z + sum l - x + y). rewrite (IH i Hi). lia.
Qed.

Lemma incr_item_run (l : list Z) (k : Z) :
  0 ≤ k < Z.of_nat (length l) →
  ∃ x, l !! Z.to_nat k = Some x ∧ incr_item l k = Some (<[Z.to_nat k := x + 1]> l).
Proof.
  intros Hk. destruct (lookup_lt_is_Some_2 l (Z.to_nat k)) as [x Hx]; [lia|].
  exists x. split; [done|]. unfold incr_item.
  destruct (Z.ltb_spec k 0); [lia|].
  destruct (Z.leb_spec 0 k); [|lia].
  destruct (Z.ltb_spec k (Z.of_nat (length l))); [|lia].
  cbn. by rewrite Hx.
Qed.

Lemma sweep_branch_run (fuel : nat) (s n : Z) (w : world) :
  65536 ≤ Z.of_nat fuel → 0 ≤ s < 65536 →
  ∃ w', (if n =? 2 then print (PrintInt s) ;; assign_seed s ;; findloop fuel
         else mret tt) w = Some (tt, w') ∧
        healths w' = healths w.
Proof.
  intros Hfuel Hs. destruct (n =? 2); [|by eexists].
  set (w1 := set_seed s (put_line (PrintInt s) w)).
  destruct (findloop_run w1 65536 (λ m, distinct_prefix_bound _ m Hs) fuel Hfuel)
    as (p & c & seen & _ & _ & _ & _ & Hrun & _).
  eexists. split; [exact Hrun|]. cbn. by rewrite healths_ticks.
Qed.

(** One pass of the loop body adds one to exactly one bucket. *)
Lemma sweep_body_run (fuel : nat) (s : Z) (w : world) :
  65536 ≤ Z.of_nat fuel → 0 ≤ s < 65536 → length (healths w) = 6%nat →
  ∃ (w' : world) (k : nat) (x : Z),
    sweep_body fuel s w = Some (tt, w') ∧
    healths w !! k = Some x ∧
    healths w' = <[k := x + 1]> (healths w).
Proof.
  intros Hfuel Hs Hlen. assert (2 ≤ fuel)%nat as Hf by lia.
  destruct (minikraid_total fuel (set_seed s w) Hf) as (n & w1 & Hrun1 & _ & Hw1).
  destruct (sweep_branch_run fuel s n w1 Hfuel Hs) as (w2 & Hrun2 & Hw2).
  destruct (minikraid_total fuel w2 Hf) as (k & w3 & Hrun3 & Hk & Hw3).
  apply reaches_healths in Hw1, Hw3. cbn in Hw1.
  assert (healths w3 = healths w) as Hh by congruence.
  destruct (incr_item_run (healths w) k) as (x & Hx & Hincr); [lia|].
  exists (set_healths (<[Z.to_nat k := x + 1]> (healths w)) w3), (Z.to_nat k), x.
  split_and!; [|done..].
  unfold sweep_body. rewrite bind_run. cbn.
  rewrite (bind_run_Some _ _ _ _ _ Hrun1), (bind_run_Some _ _ _ _ _ Hrun2),
    (bind_run_Some _ _ _ _ _ Hrun3).
  unfold incr_healths. by rewrite Hh, Hincr.
Qed.

Lemma for_each_sweep_run (fuel : nat) (l : list Z) (w : world) :
  65536 ≤ Z.of_nat fuel → (∀ s, s ∈ l → 0 ≤ s < 65536) → length (healths w) = 6%nat →
  ∃ w', for_each l (sweep_body fuel) w = Some (tt, w') ∧
        length (healths w') = 6%nat ∧
        sum (healths w') = sum (healths w) + Z.of_nat (length l).
Proof.
  intros Hfuel. revert w. induction l as [|s l IH]; intros w Hl Hlen.
  - exists w. split_and!; [done..|cbn; lia].
  - destruct (sweep_body_run fuel s w Hfuel) as (w1 & k & x & Hrun & Hx & Hh);
      [apply Hl; left|done|].
    destruct (IH w1) as (w2 & Hrun2 & Hlen2 & Hsum2).
    { intros s' Hs'. apply Hl. by right. }
    { by rewrite Hh, length_insert. }
    exists w2. split_and!; [|done|].
    + cbn. by rewrite (bind_run_Some _ _ _ _ _ Hrun).
    + rewrite Hsum2, Hh, (sum_insert _ _ _ _ Hx). cbn [length]. lia.
Qed.

(** More fuel than [drop] needs changes nothing. *)
Lemma minikraid_fuel (fuel : nat) (w : world) :
  (2 ≤ fuel)%nat → minikraid fuel w = minikraid 2 w.
Proof. intros Hf. by rewrite !minikraid_run by lia. Qed.

(** When the first outcome is not 2 the loop body goes straight on to its
    second call of [minikraid], from the world the first call left. *)
Lemma sweep_body_skip_findloop (fuel : nat) (s n : Z) (w w1 : world) :
  (2 ≤ fuel)%nat →
  minikraid 2 (set_seed s w) = Some (n, w1) →
  n ≠ 2 →
  sweep_body fuel s w = (minikraid 2 ≫= incr_healths) w1.
Proof.
  intros Hf Hrun Hn. rewrite <- (minikraid_fuel fuel) in Hrun by done.
  assert ((if n =? 2 then print (PrintInt s) ;; assign_seed s ;; findloop fuel
           else mret tt) w1 = Some (tt, w1)) as Hskip
    by (by destruct (Z.eqb_spec n 2)).
  unfold sweep_body.
  rewrite (bind_run_Some (assign_seed s) _ w (set_seed s w) tt eq_refl).
  rewrite (bind_run_Some _ _ _ _ _ Hrun), (bind_run_Some _ _ _ _ _ Hskip).
  by rewrite !bind_run, minikraid_fuel.
Qed.

(** * The claims of the specification *)

(** C3: [rng] computes the transition as the specification words it
    (low, high, r1 unmasked, r2 masked, combined, folded), stores the new
    state in [seed] and returns it; from state 0 the new state is 0x0111. *)
Theorem rng_refines_advance_spec (w : world) :
  rng w = Some (advance_spec (seed w), set_seed (advance_spec (seed w)) w) ∧
  rng (set_seed 0 w) = Some (0x0111, set_seed 0x0111 w).
Proof.
  split; [|done]. rewrite rng_run. unfold tick. by rewrite rng_result_advance_spec.
Qed.

(** C2, as stated, fails: state 99 is not 0, and [rng] takes it to 0x0300,
    whose low byte is zero. *)
Lemma rng_zero_low_byte_from_99 :
  rng (set_seed 99 initial_world) = Some (0x0300, set_seed 0x0300 initial_world) ∧
  ¬ (0 ≤ 99 < 65536 → Z.land (rng_result 99) 0xFF = 0 → 99 = 0).
Proof. split; [done|]. intros H. by specialize (H ltac:(lia) eq_refl). Qed.

(** C2, amended: the new state has a zero low byte exactly when the old low
    byte is 99 and the combined value stays below 0x10000, or the old low byte
    is 150 and the combined value reaches 0x10000; state 0 is not one of
    these states. *)
Theorem rng_zero_low_byte_iff :
  (∀ s : Z,
     Z.land (rng_result s) 0xFF = 0 ↔
       (Z.land s 0xFF = 99 ∧ combined_spec s < 0x10000) ∨
       (Z.land s 0xFF = 150 ∧ 0x10000 ≤ combined_spec s)) ∧
  Z.land (rng_result 0) 0xFF ≠ 0.
Proof. split; [apply low_byte_zero_iff|done]. Qed.

(** C4: [drop] calls [rng] [n] times with [n] at least 1, where the [n]-th
    new state is the first one with a nonzero low byte, and returns true
    exactly when that low byte is 1. *)
Theorem drop_first_nonzero_low_byte (fuel : nat) (w : world) :
  (2 ≤ fuel)%nat →
  ∃ (n : nat) (b : bool),
    (1 ≤ n)%nat ∧
    drop fuel w = Some (b, ticks n w) ∧
    (∀ k : nat, (1 ≤ k < n)%nat → Z.land (seed (ticks k w)) 0xFF = 0) ∧
    Z.land (seed (ticks n w)) 0xFF ≠ 0 ∧
    (b = true ↔ Z.land (seed (ticks n w)) 0xFF = 1).
Proof.
  intros Hf. exists (drop_ticks w), (drop_value w). split_and!.
  - unfold drop_ticks. case_match; lia.
  - by apply drop_run.
  - apply drop_ticks_first.
  - apply drop_ticks_nonzero.
  - unfold drop_value, after_drop, low_byte. by rewrite Z.eqb_eq.
Qed.

(** The statement above at two units of fuel, from the initial world. *)
Lemma drop_first_nonzero_low_byte_witness :
  (2 ≤ 2)%nat ∧
  ∃ (n : nat) (b : bool),
    (1 ≤ n)%nat ∧
    drop 2 initial_world = Some (b, ticks n initial_world) ∧
    (∀ k : nat, (1 ≤ k < n)%nat → Z.land (seed (ticks k initial_world)) 0xFF = 0) ∧
    Z.land (seed (ticks n initial_world)) 0xFF ≠ 0 ∧
    (b = true ↔ Z.land (seed (ticks n initial_world)) 0xFF = 1).
Proof. split; [lia|]. apply (drop_first_nonzero_low_byte 2 initial_world). lia. Defined.

(** C8: the loop of [drop] terminates from every state: one of the first two
    new states has a nonzero low byte, so two iterations are enough, and
    allowing more iterations does not change the result. *)
Theorem drop_terminates (w : world) (fuel : nat) :
  (∃ n : nat, (1 ≤ n ≤ 2)%nat ∧ Z.land (seed (ticks n w)) 0xFF ≠ 0) ∧
  is_Some (drop 2 w) ∧
  drop (2 + fuel) w = drop 2 w.
Proof.
  split_and!.
  - exists (drop_ticks w). split; [|apply drop_ticks_nonzero].
    unfold drop_ticks. case_match; lia.
  - rewrite drop_run by lia. eauto.
  - by rewrite !drop_run by lia.
Qed.

(** C5: [minikraid] calls, in this order, rng, drop (a), rng, drop (b), rng,
    drop (c), rng, drop (d), rng 176 times, drop (e), and returns
    int(a) + int(b) + int(c) + int(d) + int(e). *)
Theorem minikraid_call_sequence (fuel : nat) (w : world) :
  (2 ≤ fuel)%nat →
  ∃ (r1 r2 r3 r4 : Z) (a b c d e : bool) (w1 w2 w3 w4 w5 w6 w7 w8 w9 w10 : world),
    rng w = Some (r1, w1) ∧ drop fuel w1 = Some (a, w2) ∧
    rng w2 = Some (r2, w3) ∧ drop fuel w3 = Some (b, w4) ∧
    rng w4 = Some (r3, w5) ∧ drop fuel w5 = Some (c, w6) ∧
    rng w6 = Some (r4, w7) ∧ drop fuel w7 = Some (d, w8) ∧
    for_range 176 (rng ;; mret tt) w8 = Some (tt, w9) ∧ w9 = ticks 176 w8 ∧
    drop fuel w9 = Some (e, w10) ∧
    minikraid fuel w = Some (int a + int b + int c + int d + int e, w10).
Proof.
  intros Hf. do 19 eexists.
  repeat lazymatch goal with
    | |- rng _ = _ ∧ _ => split; [apply rng_run|]
    | |- drop _ _ = _ ∧ _ => split; [by apply drop_run'|]
    | |- for_range _ _ _ = _ ∧ _ => split; [apply for_range_rng|]
    | |- _ = ticks _ _ ∧ _ => split; [reflexivity|]
    end.
  by apply minikraid_run.
Qed.

(** The call sequence at two units of fuel, from the initial world. *)
Lemma minikraid_call_sequence_witness :
  (2 ≤ 2)%nat ∧
  ∃ (r1 r2 r3 r4 : Z) (a b c d e : bool) (w1 w2 w3 w4 w5 w6 w7 w8 w9 w10 : world),
    rng initial_world = Some (r1, w1) ∧ drop 2 w1 = Some (a, w2) ∧
    rng w2 = Some (r2, w3) ∧ drop 2 w3 = Some (b, w4) ∧
    rng w4 = Some (r3, w5) ∧ drop 2 w5 = Some (c, w6) ∧
    rng w6 = Some (r4, w7) ∧ drop 2 w7 = Some (d, w8) ∧
    for_range 176 (rng ;; mret tt) w8 = Some (tt, w9) ∧ w9 = ticks 176 w8 ∧
    drop 2 w9 = Some (e, w10) ∧
    minikraid 2 initial_world = Some (int a + int b + int c + int d + int e, w10).
Proof. split; [lia|]. apply (minikraid_call_sequence 2 initial_world). lia. Defined.

(** C9: from every seed, in particular every seed in 0..65535, [minikraid]
    returns an integer between 0 and 5. *)
Theorem minikraid_outcome_range (fuel : nat) (s : Z) (w : world) :
  (2 ≤ fuel)%nat →
  ∃ (n : Z) (w' : world),
    (assign_seed s ;; minikraid fuel) w = Some (n, w') ∧ 0 ≤ n ≤ 5.
Proof.
  intros Hf.
  destruct (minikraid_total fuel (set_seed s w) Hf) as (n & w' & Hrun & Hn & _).
  by exists n, w'.
Qed.

(** The range of the outcome at two units of fuel, for seed 41. *)
Lemma minikraid_outcome_range_witness :
  (2 ≤ 2)%nat ∧
  ∃ (n : Z) (w' : world),
    (assign_seed 41 ;; minikraid 2) initial_world = Some (n, w') ∧ 0 ≤ n ≤ 5.
Proof. split; [lia|]. apply (minikraid_outcome_range 2 41 initial_world). lia. Defined.

(** C6: [findloop] prints prefix_length >= 0 and cycle_length >= 1; it stops
    after prefix_length + cycle_length calls of [rng], in the first state of
    the orbit that was seen before, and that state was seen at step
    prefix_length: no two earlier steps share a state, and the states at steps
    prefix_length and prefix_length + cycle_length are the same. *)
Theorem findloop_reports_cycle (fuel : nat) (w : world) :
  65537 ≤ Z.of_nat fuel →
  ∃ prefix_length cycle_length : Z,
    0 ≤ prefix_length ∧ 1 ≤ cycle_length ∧
    findloop fuel w =
      Some (tt, put_line (PrintPrefix prefix_length cycle_length)
                  (ticks (Z.to_nat (prefix_length + cycle_length)) w)) ∧
    orbit (Z.to_nat (prefix_length + cycle_length)) (seed w)
      = orbit (Z.to_nat prefix_length) (seed w) ∧
    (∀ i j : nat, (i < j)%nat → Z.of_nat j < prefix_length + cycle_length →
                  orbit i (seed w) ≠ orbit j (seed w)).
Proof.
  intros Hfuel.
  destruct (findloop_run w 65537 (distinct_prefix_bound_any _) fuel Hfuel)
    as (p & c & seen & Hc & _ & _ & _ & Hrun & Horb & Hdist).
  exists (Z.of_nat p), (Z.of_nat c).
  replace (Z.to_nat (Z.of_nat p + Z.of_nat c)) with (p + c)%nat by lia.
  rewrite Nat2Z.id. split_and!; [lia|lia|done|done|].
  intros i j Hij Hj Heq. apply Hdist in Heq; lia.
Qed.

(** The report of [findloop] at 65537 units of fuel, from seed 0. *)
Lemma findloop_reports_cycle_witness :
  65537 ≤ Z.of_nat (Z.to_nat 65537) ∧
  ∃ prefix_length cycle_length : Z,
    0 ≤ prefix_length ∧ 1 ≤ cycle_length ∧
    findloop (Z.to_nat 65537) initial_world =
      Some (tt, put_line (PrintPrefix prefix_length cycle_length)
                  (ticks (Z.to_nat (prefix_length + cycle_length)) initial_world)) ∧
    orbit (Z.to_nat (prefix_length + cycle_length)) (seed initial_world)
      = orbit (Z.to_nat prefix_length) (seed initial_world) ∧
    (∀ i j : nat, (i < j)%nat → Z.of_nat j < prefix_length + cycle_length →
                  orbit i (seed initial_world) ≠ orbit j (seed initial_world)).
Proof.
  split; [lia|]. apply (findloop_reports_cycle (Z.to_nat 65537) initial_world). lia.
Defined.

(** C7: from a seed in 0..65535 the loop of [findloop] stops after at most
    65536 iterations (so its condition is evaluated at most 65537 times):
    65536 units of fuel are enough, the counter it stops with is at most
    65536, and every iteration has put a new state in the dictionary. *)
Theorem findloop_while_terminates (fuel : nat) (w : world) :
  0 ≤ seed w < 65536 →
  65536 ≤ Z.of_nat fuel →
  ∃ (seen : gmap Z Z) (i : nat),
    findloop_while fuel ∅ 0 w = Some ((seen, Z.of_nat i), ticks i w) ∧
    Z.of_nat i ≤ 65536 ∧
    size seen = i ∧
    is_Some (findloop fuel w).
Proof.
  intros Hs Hfuel.
  destruct (findloop_run w 65536 (λ m, distinct_prefix_bound _ m Hs) fuel Hfuel)
    as (p & c & seen & _ & Hle & Hloop & Hsize & Hrun & _).
  exists seen, (p + c)%nat. rewrite Hrun. eauto.
Qed.

(** Termination at 65536 units of fuel, from seed 0. *)
Lemma findloop_while_terminates_witness :
  0 ≤ seed initial_world < 65536 ∧
  65536 ≤ Z.of_nat (Z.to_nat 65536) ∧
  ∃ (seen : gmap Z Z) (i : nat),
    findloop_while (Z.to_nat 65536) ∅ 0 initial_world
      = Some ((seen, Z.of_nat i), ticks i initial_world) ∧
    Z.of_nat i ≤ 65536 ∧
    size seen = i ∧
    is_Some (findloop (Z.to_nat 65536) initial_world).
Proof.
  split_and!; [cbn; lia..|].
  apply (findloop_while_terminates (Z.to_nat 65536) initial_world); cbn [seed initial_world]; lia.
Defined.

(** C10: the sweep over the 65536 seeds runs to its end and leaves six
    buckets whose sum is 65536, which is the list it prints last. *)
Theorem main_histogram_sum (fuel : nat) :
  65536 ≤ Z.of_nat fuel →
  ∃ w' : world,
    run_main fuel = Some (tt, w') ∧
    length (healths w') = 6%nat ∧
    sum (healths w') = 65536 ∧
    last (stdout w') = Some (PrintList (healths w')).
Proof.
  intros Hfuel.
  destruct (for_each_sweep_run fuel (seqZ 0 65536) initial_world Hfuel)
    as (w1 & Hrun & Hlen & Hsum); [|done|].
  { intros s Hs%elem_of_seqZ. lia. }
  exists (put_line (PrintList (healths w1)) w1). split_and!.
  - unfold run_main, main. by rewrite (bind_run_Some _ _ _ _ _ Hrun).
  - done.
  - cbn [healths put_line]. rewrite Hsum, length_seqZ. cbn [initial_world healths sum foldr]. lia.
  - cbn [stdout healths put_line]. apply last_snoc.
Qed.

(** The sum of the buckets at 65536 units of fuel. *)
Lemma main_histogram_sum_witness :
  65536 ≤ Z.of_nat (Z.to_nat 65536) ∧
  ∃ w' : world,
    run_main (Z.to_nat 65536) = Some (tt, w') ∧
    length (healths w') = 6%nat ∧
    sum (healths w') = 65536 ∧
    last (stdout w') = Some (PrintList (healths w')).
Proof. split; [lia|]. apply (main_histogram_sum (Z.to_nat 65536)). lia. Defined.

(** C1 fails on seed 41: [minikraid] from seed 41 returns 1, but the loop
    body calls [minikraid] again without assigning [seed] first, from the
    state the first call left, where it returns 0; bucket 0 is the one
    incremented. *)
Theorem sweep_body_bucket_seed_41 (fuel : nat) :
  fst <$> (assign_seed 41 ;; minikraid (2 + fuel)) initial_world = Some 1 ∧
  healths ∘ snd <$> sweep_body (2 + fuel) 41 initial_world = Some [1; 0; 0; 0; 0; 0].
Proof.
  assert (2 ≤ 2 + fuel)%nat as Hf by lia.
  assert (∃ w1, minikraid 2 (set_seed 41 initial_world) = Some (1, w1) ∧
                healths ∘ snd <$> (minikraid 2 ≫= incr_healths) w1
                  = Some [1; 0; 0; 0; 0; 0]) as (w1 & Hrun & Hbucket).
  { eexists. split; [by vm_compute|]. by vm_compute. }
  split.
  - rewrite bind_run. cbn [assign_seed]. by rewrite minikraid_fuel, Hrun.
  - by rewrite (sweep_body_skip_findloop _ _ _ _ _ Hf Hrun).
Qed.

(** * Further properties of the script *)

(** ** rng *)

(** X1: whatever integer [seed] holds, negative or wider than 16 bits, [rng]
    returns a value in 0..65535 and leaves exactly that value in [seed];
    [healths] and the output are untouched. *)
Theorem rng_leaves_16_bit_state (w : world) :
  ∃ r : Z,
    rng w = Some (r, set_seed r w) ∧ 0 ≤ r < 65536.
Proof. exists (rng_result (seed w)). split; [done|]. apply rng_result_range. Qed.

(** X2: [rng] reads the low 16 bits of [seed] only: masking the seed to 16
    bits first changes neither the value returned nor the world left. *)
Theorem rng_reads_low_16_bits (s : Z) (w : world) :
  rng (set_seed (Z.land s 0xFFFF) w) = rng (set_seed s w).
Proof.
  assert (rng_result (Z.land s 0xFFFF) = rng_result s) as H.
  { rewrite !rng_result_arith, !combined_spec_arith, land_word.
    replace ((s mod 65536) mod 256) with (s mod 256) by lia_div.
    replace ((s mod 65536 / 256) mod 256) with ((s / 256) mod 256) by lia_div.
    reflexivity. }
  rewrite !rng_run. unfold tick. cbn [seed set_seed]. by rewrite H.
Qed.

(** The state after a call of [rng] is never the state before it. *)
Lemma rng_result_neq (s : Z) : rng_result s ≠ s.
Proof.
  intros Heq. pose proof (low_byte_rng_result s) as Hlow.
  rewrite Heq in Hlow. unfold low_byte in Hlow. rewrite land_byte in Hlow.
  pose proof (combined_spec_bounds s) as Hb.
  set (c := combined_spec s) in *. clearbody c.
  assert (c / 65536 = 0 ∨ c / 65536 = 1) as [Hc|Hc] by lia_div;
    rewrite Hc in Hlow; lia_div.
Qed.

(** X3: the generator has no fixed point: [rng] never returns, nor leaves in
    [seed], the value [seed] had before the call. *)
Theorem rng_no_fixed_point (w : world) :
  ∃ r : Z, rng w = Some (r, set_seed r w) ∧ r ≠ seed w.
Proof. exists (rng_result (seed w)). split; [done|]. apply rng_result_neq. Qed.

(** ** drop *)

Lemma drop_ticks_bounds (w : world) : (1 ≤ drop_ticks w ≤ 2)%nat.
Proof. unfold drop_ticks. case_match; lia. Qed.

(** A retry of [drop] never succeeds: the value is decided by the first new
    state. *)
Lemma drop_value_first (w : world) :
  drop_value w = (low_byte (rng_result (seed w)) =? 1).
Proof.
  unfold drop_value, after_drop, drop_ticks.
  change (seed (tick w)) with (rng_result (seed w)).
  destruct (Z.eqb_spec (low_byte (rng_result (seed w))) 0) as [Hz|Hz]; [|done].
  change (seed (ticks 2 w)) with (rng_result (rng_result (seed w))).
  rewrite Hz. destruct (low_byte_after_zero _ Hz) as [-> | ->]; done.
Qed.

(** X4: [drop] calls [rng] once or twice, and its result is decided by the
    first call alone: it returns true exactly when the low byte of the first
    new state is 1 (after a zero low byte the next one is 0x11 or 0x12, so a
    retry always ends in false).  It changes nothing but [seed]. *)
Theorem drop_decided_by_first_call (fuel : nat) (w : world) :
  (2 ≤ fuel)%nat →
  ∃ (n : nat) (w' : world),
    drop fuel w = Some (Z.land (rng_result (seed w)) 0xFF =? 1, w') ∧
    (1 ≤ n ≤ 2)%nat ∧
    seed w' = orbit n (seed w) ∧
    healths w' = healths w ∧ stdout w' = stdout w.
Proof.
  intros Hf. exists (drop_ticks w), (after_drop w).
  split; [|split; [apply drop_ticks_bounds|]].
  - rewrite drop_run' by done. by rewrite drop_value_first.
  - split_and!; [apply seed_ticks|apply healths_ticks|apply stdout_ticks].
Qed.

(** The statement above at two units of fuel, from the initial world. *)
Lemma drop_decided_by_first_call_witness :
  (2 ≤ 2)%nat ∧
  ∃ (n : nat) (w' : world),
    drop 2 initial_world = Some (Z.land (rng_result (seed initial_world)) 0xFF =? 1, w') ∧
    (1 ≤ n ≤ 2)%nat ∧
    seed w' = orbit n (seed initial_world) ∧
    healths w' = healths initial_world ∧ stdout w' = stdout initial_world.
Proof. split; [lia|]. apply (drop_decided_by_first_call 2 initial_world). lia. Defined.

(** ** minikraid *)

Lemma after_drop_ticks (n : nat) (w : world) :
  ∃ d : nat, (1 ≤ d ≤ 2)%nat ∧ after_drop (ticks n w) = ticks (d + n) w.
Proof.
  exists (drop_ticks (ticks n w)). split; [apply drop_ticks_bounds|].
  unfold after_drop. by rewrite ticks_add.
Qed.

(** The number of calls of [rng] in a call of [minikraid]. *)
Lemma minikraid_ticks (fuel : nat) (w : world) :
  (2 ≤ fuel)%nat →
  ∃ (n : Z) (k : nat) (w' : world),
    minikraid fuel w = Some (n, w') ∧
    (185 ≤ k ≤ 190)%nat ∧
    seed w' = orbit k (seed w) ∧ 0 ≤ seed w' < 65536 ∧
    healths w' = healths w ∧ stdout w' = stdout w.
Proof.
  intros Hf.
  destruct (after_drop_ticks 1 w) as (d1 & Hd1 & E1).
  destruct (after_drop_ticks (S (d1 + 1)) w) as (d2 & Hd2 & E2).
  destruct (after_drop_ticks (S (d2 + S (d1 + 1))) w) as (d3 & Hd3 & E3).
  destruct (after_drop_ticks (S (d3 + S (d2 + S (d1 + 1)))) w) as (d4 & Hd4 & E4).
  destruct (after_drop_ticks (176 + (d4 + S (d3 + S (d2 + S (d1 + 1))))) w)
    as (d5 & Hd5 & E5).
  set (k := (d5 + (176 + (d4 + S (d3 + S (d2 + S (d1 + 1))))))%nat) in *.
  assert (after_drop (ticks 176 (after_drop (tick (after_drop (tick (after_drop
            (tick (after_drop (tick w)))))))))
          = ticks k w) as Hk.
  { change (tick w) with (ticks 1 w). rewrite E1.
    change (tick (ticks (d1 + 1) w)) with (ticks (S (d1 + 1)) w). rewrite E2.
    change (tick (ticks (d2 + S (d1 + 1)) w)) with (ticks (S (d2 + S (d1 + 1))) w).
    rewrite E3.
    change (tick (ticks (d3 + S (d2 + S (d1 + 1))) w))
      with (ticks (S (d3 + S (d2 + S (d1 + 1)))) w).
    rewrite E4, <- ticks_add. exact E5. }
  eexists _, k, (ticks k w).
  split; [|split; [lia|split; [|split]]].
  - rewrite minikraid_run by done. cbv zeta. by rewrite Hk.
  - apply seed_ticks.
  - rewrite seed_ticks. assert (∃ k', k = S k') as [k' ->] by (exists (pred k); lia).
    apply orbit_range.
  - split; [apply healths_ticks|apply stdout_ticks].
Qed.

(** X5: a call of [minikraid] makes between 185 and 190 calls of [rng] (four
    before the drops, 176 in the loop, one or two in each of the five drops),
    leaves a 16-bit state in [seed] and changes nothing else. *)
Theorem minikraid_rng_calls (fuel : nat) (w : world) :
  (2 ≤ fuel)%nat →
  ∃ (n : Z) (k : nat) (w' : world),
    minikraid fuel w = Some (n, w') ∧
    (185 ≤ k ≤ 190)%nat ∧
    seed w' = orbit k (seed w) ∧ 0 ≤ seed w' < 65536 ∧
    healths w' = healths w ∧ stdout w' = stdout w.
Proof. apply minikraid_ticks. Qed.

(** The statement above at two units of fuel, from the initial world. *)
Lemma minikraid_rng_calls_witness :
  (2 ≤ 2)%nat ∧
  ∃ (n : Z) (k : nat) (w' : world),
    minikraid 2 initial_world = Some (n, w') ∧
    (185 ≤ k ≤ 190)%nat ∧
    seed w' = orbit k (seed initial_world) ∧ 0 ≤ seed w' < 65536 ∧
    healths w' = healths initial_world ∧ stdout w' = stdout initial_world.
Proof. split; [lia|]. apply (minikraid_rng_calls 2 initial_world). lia. Defined.

(** ** findloop *)

Lemma orbit_add (a b : nat) (s : Z) : orbit (a + b) s = orbit a (orbit b s).
Proof. apply Nat.iter_add. Qed.

Section periodic_orbit.
(** The orbit of [s] comes back at step [p + c] to its state at step [p]. *)
Variable s : Z.
Variables p c : nat.
Hypothesis Hback : orbit (p + c) s = orbit p s.

Lemma orbit_period (m : nat) : (p ≤ m)%nat → orbit (m + c) s = orbit m s.
Proof.
  intros Hm. replace m with ((m - p) + p)%nat at 2 by lia.
  replace (m + c)%nat with ((m - p) + (p + c))%nat by lia.
  by rewrite !(orbit_add (m - p)), Hback.
Qed.

Lemma orbit_period_mul (m q : nat) : (p ≤ m)%nat → orbit (m + q * c) s = orbit m s.
Proof.
  intros Hm. induction q as [|q IH]; [by rewrite Nat.add_0_r|].
  replace (m + S q * c)%nat with ((m + q * c) + c)%nat by lia.
  rewrite orbit_period by lia. exact IH.
Qed.

(** Every step from [p] on has the state of a step in [p, p + c). *)
Lemma orbit_reduce (m : nat) :
  (p ≤ m)%nat → (1 ≤ c)%nat →
  orbit m s = orbit (p + (m - p) mod c) s ∧ ((m - p) mod c < c)%nat.
Proof.
  intros Hm Hc. split; [|apply Nat.mod_upper_bound; lia].
  pose proof (Nat.div_mod_eq (m - p) c) as Hdiv.
  rewrite <- (orbit_period_mul (p + (m - p) mod c) ((m - p) / c)) by lia.
  f_equal. lia.
Qed.

(** With pairwise different states before step [p + c], no state before step
    [p] is ever seen again. *)
Lemma orbit_prefix_never_again (i j : nat) :
  distinct_prefix s (p + c) → (1 ≤ c)%nat →
  (i < p)%nat → j ≠ i → orbit j s ≠ orbit i s.
Proof.
  intros Hd Hc Hi Hij Heq.
  destruct (Nat.lt_ge_cases j (p + c)) as [Hj|Hj].
  - apply Hd in Heq; lia.
  - destruct (orbit_reduce j) as [Hred Hlt]; [lia..|].
    rewrite Hred in Heq. apply Hd in Heq; lia.
Qed.

(** With pairwise different states before step [p + c], no positive number
    below [c] is a period of the orbit from step [p] on. *)
Lemma orbit_least_period (m c' : nat) :
  distinct_prefix s (p + c) → (p ≤ m)%nat → (1 ≤ c' < c)%nat →
  orbit (m + c') s ≠ orbit m s.
Proof.
  intros Hd Hm Hc' Heq.
  destruct (orbit_reduce m) as [Hred Hlt]; [lia..|].
  destruct (orbit_reduce (m + c')) as [Hred' Hlt']; [lia..|].
  rewrite Hred, Hred' in Heq. apply Hd in Heq; [|lia..].
  assert ((m + c' - p) mod c = (m - p) mod c)%nat as Hmod by lia.
  pose proof (Nat.div_mod_eq (m - p) c) as H1.
  pose proof (Nat.div_mod_eq (m + c' - p) c) as H2.
  rewrite Hmod in H2.
  assert (c' = c * ((m + c' - p) / c) - c * ((m - p) / c))%nat as Hc'' by lia.
  rewrite <- Nat.mul_sub_distr_l in Hc''.
  destruct ((m + c' - p) / c - (m - p) / c)%nat as [|d]; nia.
Qed.
End periodic_orbit.

(** What [findloop] does from any seed, with the facts the theorems below
    are read off. *)
Lemma findloop_run_any (fuel : nat) (w : world) :
  65537 ≤ Z.of_nat fuel →
  ∃ p c : nat,
    (2 ≤ c)%nat ∧ Z.of_nat (p + c) ≤ 65537 ∧
    findloop fuel w
      = Some (tt, put_line (PrintPrefix (Z.of_nat p) (Z.of_nat c)) (ticks (p + c) w)) ∧
    orbit (p + c) (seed w) = orbit p (seed w) ∧
    distinct_prefix (seed w) (p + c).
Proof.
  intros Hfuel.
  destruct (findloop_run w 65537 (distinct_prefix_bound_any _) fuel Hfuel)
    as (p & c & seen & Hc & Hle & _ & _ & Hrun & Horb & Hdist).
  exists p, c. split_and!; [|done..].
  destruct (decide (c = 1%nat)) as [->|]; [|lia].
  replace (p + 1)%nat with (S p) in Horb by lia.
  by apply rng_result_neq in Horb.
Qed.

(** X6: the length that [findloop] prints is the least period of the orbit:
    from step prefix on the state comes back every [length] steps, and after
    no smaller positive number of steps. *)
Theorem findloop_length_is_least_period (fuel : nat) (w : world) :
  65537 ≤ Z.of_nat fuel →
  ∃ (prefix length : nat) (w' : world),
    findloop fuel w = Some (tt, w') ∧
    last (stdout w') = Some (PrintPrefix (Z.of_nat prefix) (Z.of_nat length)) ∧
    (∀ m : nat, (prefix ≤ m)%nat → orbit (m + length) (seed w) = orbit m (seed w)) ∧
    (∀ m c : nat, (prefix ≤ m)%nat → (1 ≤ c < length)%nat →
                  orbit (m + c) (seed w) ≠ orbit m (seed w)).
Proof.
  intros Hfuel.
  destruct (findloop_run_any fuel w Hfuel) as (p & c & Hc & _ & Hrun & Horb & Hdist).
  eexists p, c, _. split; [exact Hrun|]. split; [apply last_snoc|]. split.
  - intros m Hm. by apply (orbit_period _ p c Horb).
  - intros m c' Hm Hc'. by apply (orbit_least_period _ p c Horb).
Qed.

(** The statement above at 65537 units of fuel, from seed 0. *)
Lemma findloop_length_is_least_period_witness :
  65537 ≤ Z.of_nat (Z.to_nat 65537) ∧
  ∃ (prefix length : nat) (w' : world),
    findloop (Z.to_nat 65537) initial_world = Some (tt, w') ∧
    last (stdout w') = Some (PrintPrefix (Z.of_nat prefix) (Z.of_nat length)) ∧
    (∀ m : nat, (prefix ≤ m)%nat →
                orbit (m + length) (seed initial_world) = orbit m (seed initial_world)) ∧
    (∀ m c : nat, (prefix ≤ m)%nat → (1 ≤ c < length)%nat →
                  orbit (m + c) (seed initial_world) ≠ orbit m (seed initial_world)).
Proof.
  split; [lia|].
  apply (findloop_length_is_least_period (Z.to_nat 65537) initial_world). lia.
Defined.

(** X7: the prefix that [findloop] prints is the number of states that are
    not on the cycle: a state at a step before prefix is at no other step of
    the orbit, and a state at a step from prefix on comes back. *)
Theorem findloop_prefix_is_tail (fuel : nat) (w : world) :
  65537 ≤ Z.of_nat fuel →
  ∃ (prefix length : nat) (w' : world),
    findloop fuel w = Some (tt, w') ∧
    last (stdout w') = Some (PrintPrefix (Z.of_nat prefix) (Z.of_nat length)) ∧
    (∀ i j : nat, (i < prefix)%nat → j ≠ i → orbit j (seed w) ≠ orbit i (seed w)) ∧
    (∀ m : nat, (prefix ≤ m)%nat →
                ∃ j : nat, (m < j)%nat ∧ orbit j (seed w) = orbit m (seed w)).
Proof.
  intros Hfuel.
  destruct (findloop_run_any fuel w Hfuel) as (p & c & Hc & _ & Hrun & Horb & Hdist).
  eexists p, c, _. split; [exact Hrun|]. split; [apply last_snoc|]. split.
  - intros i j Hi Hij. apply (orbit_prefix_never_again _ p c Horb); [done|lia|done..].
  - intros m Hm. exists (m + c)%nat. split; [lia|]. by apply (orbit_period _ p c Horb).
Qed.

(** The statement above at 65537 units of fuel, from seed 0. *)
Lemma findloop_prefix_is_tail_witness :
  65537 ≤ Z.of_nat (Z.to_nat 65537) ∧
  ∃ (prefix length : nat) (w' : world),
    findloop (Z.to_nat 65537) initial_world = Some (tt, w') ∧
    last (stdout w') = Some (PrintPrefix (Z.of_nat prefix) (Z.of_nat length)) ∧
    (∀ i j : nat, (i < prefix)%nat → j ≠ i →
                  orbit j (seed initial_world) ≠ orbit i (seed initial_world)) ∧
    (∀ m : nat, (prefix ≤ m)%nat →
                ∃ j : nat, (m < j)%nat ∧
                           orbit j (seed initial_world) = orbit m (seed initial_world)).
Proof.
  split; [lia|].
  apply (findloop_prefix_is_tail (Z.to_nat 65537) initial_world). lia.
Defined.

(** X8: [findloop] prints exactly one line, with length at least 2 and
    prefix + length at most 65537, leaves [healths] alone, and leaves in
    [seed] the state at step prefix, where the orbit enters its cycle. *)
Theorem findloop_output_and_state (fuel : nat) (w : world) :
  65537 ≤ Z.of_nat fuel →
  ∃ (prefix length : Z) (w' : world),
    findloop fuel w = Some (tt, w') ∧
    stdout w' = stdout w ++ [PrintPrefix prefix length] ∧
    0 ≤ prefix ∧ 2 ≤ length ∧ prefix + length ≤ 65537 ∧
    healths w' = healths w ∧
    seed w' = orbit (Z.to_nat prefix) (seed w).
Proof.
  intros Hfuel.
  destruct (findloop_run_any fuel w Hfuel) as (p & c & Hc & Hle & Hrun & Horb & _).
  eexists (Z.of_nat p), (Z.of_nat c), _. split; [exact Hrun|].
  cbn [stdout healths seed put_line].
  rewrite stdout_ticks, healths_ticks, seed_ticks, Nat2Z.id.
  split; [done|]. split; [lia|]. split; [lia|]. split; [lia|]. split; done.
Qed.

(** The statement above at 65537 units of fuel, from seed 0. *)
Lemma findloop_output_and_state_witness :
  65537 ≤ Z.of_nat (Z.to_nat 65537) ∧
  ∃ (prefix length : Z) (w' : world),
    findloop (Z.to_nat 65537) initial_world = Some (tt, w') ∧
    stdout w' = stdout initial_world ++ [PrintPrefix prefix length] ∧
    0 ≤ prefix ∧ 2 ≤ length ∧ prefix + length ≤ 65537 ∧
    healths w' = healths initial_world ∧
    seed w' = orbit (Z.to_nat prefix) (seed initial_world).
Proof.
  split; [lia|].
  apply (findloop_output_and_state (Z.to_nat 65537) initial_world). lia.
Defined.

(** ** The sweep *)

(** [findloop] from a 16-bit seed, with 65536 iterations allowed. *)
Lemma findloop_run_16_bit (fuel : nat) (w : world) :
  0 ≤ seed w < 65536 →
  65536 ≤ Z.of_nat fuel →
  ∃ p c : nat,
    (2 ≤ c)%nat ∧ Z.of_nat (p + c) ≤ 65536 ∧
    findloop fuel w
      = Some (tt, put_line (PrintPrefix (Z.of_nat p) (Z.of_nat c)) (ticks (p + c) w)) ∧
    orbit (p + c) (seed w) = orbit p (seed w).
Proof.
  intros Hs Hfuel.
  destruct (findloop_run w 65536 (λ m, distinct_prefix_bound _ m Hs) fuel Hfuel)
    as (p & c & seen & Hc & Hle & _ & _ & Hrun & Horb & _).
  exists p, c. split_and!; [|done..].
  destruct (decide (c = 1%nat)) as [->|]; [|lia].
  replace (p + 1)%nat with (S p) in Horb by lia.
  by apply rng_result_neq in Horb.
Qed.

(** The middle of the loop body, after a first outcome [n] that left world
    [w1]: what it writes and where it leaves [seed]. *)
Lemma sweep_branch_output (fuel : nat) (s n : Z) (w1 : world) :
  65536 ≤ Z.of_nat fuel → 0 ≤ s < 65536 →
  ∃ w2 : world,
    (if n =? 2 then print (PrintInt s) ;; assign_seed s ;; findloop fuel
     else mret tt) w1 = Some (tt, w2) ∧
    healths w2 = healths w1 ∧
    ((n ≠ 2 ∧ w2 = w1) ∨
     (n = 2 ∧ ∃ p c : nat,
        (2 ≤ c)%nat ∧ Z.of_nat (p + c) ≤ 65536 ∧
        stdout w2 = stdout w1 ++ [PrintInt s; PrintPrefix (Z.of_nat p) (Z.of_nat c)] ∧
        seed w2 = orbit p s)).
Proof.
  intros Hfuel Hs. destruct (Z.eqb_spec n 2) as [->|Hn].
  - set (w := set_seed s (put_line (PrintInt s) w1)).
    destruct (findloop_run_16_bit fuel w Hs Hfuel) as (p & c & Hc & Hle & Hrun & Horb).
    eexists. split; [exact Hrun|]. cbn [healths stdout seed put_line].
    rewrite healths_ticks, stdout_ticks, seed_ticks. split; [done|]. right.
    split; [done|]. exists p, c. split_and!; [done..| |done].
    cbn. by rewrite <- app_assoc.
  - exists w1. split_and!; [done..|]. by left.
Qed.

(** One pass of the loop body, step by step. *)
Lemma sweep_body_steps (fuel : nat) (s : Z) (w : world) :
  65536 ≤ Z.of_nat fuel → 0 ≤ s < 65536 → length (healths w) = 6%nat →
  ∃ (n k x : Z) (w1 w2 w3 : world),
    minikraid fuel (set_seed s w) = Some (n, w1) ∧
    ((n ≠ 2 ∧ w2 = w1) ∨
     (n = 2 ∧ ∃ p c : nat,
        (2 ≤ c)%nat ∧ Z.of_nat (p + c) ≤ 65536 ∧
        stdout w2 = stdout w ++ [PrintInt s; PrintPrefix (Z.of_nat p) (Z.of_nat c)] ∧
        seed w2 = orbit p s)) ∧
    minikraid fuel w2 = Some (k, w3) ∧
    0 ≤ k ≤ 5 ∧ healths w !! Z.to_nat k = Some x ∧
    stdout w3 = stdout w2 ∧
    sweep_body fuel s w
      = Some (tt, set_healths (<[Z.to_nat k := x + 1]> (healths w)) w3).
Proof.
  intros Hfuel Hs Hlen. assert (2 ≤ fuel)%nat as Hf by lia.
  destruct (minikraid_total fuel (set_seed s w) Hf) as (n & w1 & Hrun1 & _ & Hw1).
  destruct (sweep_branch_output fuel s n w1 Hfuel Hs) as (w2 & Hrun2 & Hh2 & Hcase).
  destruct (minikraid_total fuel w2 Hf) as (k & w3 & Hrun3 & Hk & Hw3).
  pose proof (reaches_stdout _ _ Hw1) as Hout1. cbn [stdout set_seed] in Hout1.
  pose proof (reaches_stdout _ _ Hw3) as Hout3.
  apply reaches_healths in Hw1, Hw3. cbn [healths set_seed] in Hw1.
  assert (healths w3 = healths w) as Hh by congruence.
  destruct (incr_item_run (healths w) k) as (x & Hx & Hincr); [lia|].
  exists n, k, x, w1, w2, w3. split_and!; try done.
  - destruct Hcase as [?|(-> & p & c & ? & ? & Hout & ?)]; [by left|right].
    split; [done|]. exists p, c. by rewrite <- Hout1.
  - lia.
  - lia.
  - unfold sweep_body.
    rewrite (bind_run_Some (assign_seed s) _ w (set_seed s w) tt eq_refl).
    rewrite (bind_run_Some _ _ _ _ _ Hrun1), (bind_run_Some _ _ _ _ _ Hrun2),
      (bind_run_Some _ _ _ _ _ Hrun3).
    unfold incr_healths. by rewrite Hh, Hincr.
Qed.

(** X9: one pass of the loop body for a 16-bit seed, on six buckets, runs to
    its end and adds one to exactly one bucket; the other five keep their
    value. *)
Theorem sweep_body_one_bucket (fuel : nat) (s : Z) (w : world) :
  65536 ≤ Z.of_nat fuel → 0 ≤ s < 65536 → length (healths w) = 6%nat →
  ∃ (w' : world) (k : nat) (x : Z),
    sweep_body fuel s w = Some (tt, w') ∧
    (k < 6)%nat ∧
    healths w !! k = Some x ∧
    healths w' !! k = Some (x + 1) ∧
    (∀ j : nat, j ≠ k → healths w' !! j = healths w !! j) ∧
    length (healths w') = 6%nat.
Proof.
  intros Hfuel Hs Hlen.
  destruct (sweep_body_steps fuel s w Hfuel Hs Hlen)
    as (n & k & x & w1 & w2 & w3 & _ & _ & _ & Hk & Hx & _ & Hrun).
  eexists _, (Z.to_nat k), x. split; [exact Hrun|]. cbn [healths set_healths].
  split; [lia|]. split; [done|]. split; [|split].
  - apply list_lookup_insert_eq. lia.
  - intros j Hj. by apply list_lookup_insert_ne.
  - by rewrite length_insert.
Qed.

(** The statement above at 65536 units of fuel, for seed 41 on the initial
    buckets. *)
Lemma sweep_body_one_bucket_witness :
  65536 ≤ Z.of_nat (Z.to_nat 65536) ∧ 0 ≤ 41 < 65536 ∧
  length (healths initial_world) = 6%nat ∧
  ∃ (w' : world) (k : nat) (x : Z),
    sweep_body (Z.to_nat 65536) 41 initial_world = Some (tt, w') ∧
    (k < 6)%nat ∧
    healths initial_world !! k = Some x ∧
    healths w' !! k = Some (x + 1) ∧
    (∀ j : nat, j ≠ k → healths w' !! j = healths initial_world !! j) ∧
    length (healths w') = 6%nat.
Proof.
  split; [lia|]. split; [lia|]. split; [reflexivity|].
  apply (sweep_body_one_bucket (Z.to_nat 65536) 41 initial_world);
    [lia|lia|reflexivity].
Defined.

(** What one pass of the loop body writes. *)
Lemma sweep_body_writes (fuel : nat) (s : Z) (w : world) :
  65536 ≤ Z.of_nat fuel → 0 ≤ s < 65536 → length (healths w) = 6%nat →
  ∃ (n : Z) (w1 w' : world) (out : list line),
    minikraid fuel (set_seed s w) = Some (n, w1) ∧
    sweep_body fuel s w = Some (tt, w') ∧
    stdout w' = stdout w ++ out ∧
    pass_output s out ∧
    (out = [] ↔ n ≠ 2).
Proof.
  intros Hfuel Hs Hlen. assert (2 ≤ fuel)%nat as Hf by lia.
  destruct (sweep_body_steps fuel s w Hfuel Hs Hlen)
    as (n & k & x & w1 & w2 & w3 & Hrun1 & Hcase & _ & _ & _ & Hout3 & Hrun).
  destruct (minikraid_total fuel (set_seed s w) Hf) as (n' & w1' & Hrun1' & _ & Hw1).
  assert (stdout w1 = stdout w) as Hout1.
  { rewrite Hrun1 in Hrun1'. injection Hrun1' as -> ->.
    by apply reaches_stdout in Hw1. }
  destruct Hcase as [[Hn ->]|(-> & p & c & Hc & Hle & Hout2 & _)].
  - exists n, w1, (set_healths (<[Z.to_nat k := x + 1]> (healths w)) w3), [].
    split_and!; [done|done| |by left|by split].
    cbn [stdout set_healths]. by rewrite Hout3, Hout1, app_nil_r.
  - exists 2, w1, (set_healths (<[Z.to_nat k := x + 1]> (healths w)) w3),
      [PrintInt s; PrintPrefix (Z.of_nat p) (Z.of_nat c)].
    split_and!; [done|done| | |by split].
    + cbn [stdout set_healths]. by rewrite Hout3, Hout2.
    + right. exists (Z.of_nat p), (Z.of_nat c). split_and!; [lia..|done].
Qed.





Lemma sum_upper (l : list Z) (x : Z) :
  Forall (λ y, 0 ≤ y) l → x ∈ l → x ≤ sum l.
Proof.
  induction 1 as [|y l Hy Hl IH]; intros Hx; [by apply elem_of_nil in Hx|].
  assert (0 ≤ sum l) as Hsum.
  { clear -Hl. induction Hl as [|z l' Hz _ IHl]; [done|].
    change (sum (z :: l')) with (z + sum l'). lia. }
  change (sum (y :: l)) with (y + sum l).
  apply elem_of_cons in Hx as [->|Hx]; [lia|]. specialize (IH Hx). lia.
Qed.

(** The whole loop over a list of 16-bit seeds: buckets and output. *)
Lemma for_each_sweep_full (fuel : nat) (l : list Z) (w : world) :
  65536 ≤ Z.of_nat fuel → (∀ s, s ∈ l → 0 ≤ s < 65536) →
  length (healths w) = 6%nat → Forall (λ y, 0 ≤ y) (healths w) →
  ∃ (w' : world) (outs : list (list line)),
    for_each l (sweep_body fuel) w = Some (tt, w') ∧
    length (healths w') = 6%nat ∧
    Forall (λ y, 0 ≤ y) (healths w') ∧
    sum (healths w') = sum (healths w) + Z.of_nat (length l) ∧
    stdout w' = stdout w ++ concat outs ∧
    Forall2 pass_output l outs.
Proof.
  intros Hfuel. revert w. induction l as [|s l IH]; intros w Hl Hlen Hpos.
  - exists w, []. split_and!; [done..|cbn; lia|by rewrite app_nil_r|constructor].
  - assert (0 ≤ s < 65536) as Hs by (apply Hl; left).
    destruct (sweep_body_steps fuel s w Hfuel Hs Hlen)
      as (n & k & x & w1 & w2 & w3 & _ & _ & _ & Hk & Hx & _ & Hrun).
    destruct (sweep_body_writes fuel s w Hfuel Hs Hlen)
      as (n' & w1' & w' & out & _ & Hrun' & Hout & Hpass & _).
    rewrite Hrun in Hrun'. injection Hrun' as <-.
    set (w' := set_healths (<[Z.to_nat k := x + 1]> (healths w)) w3) in *.
    destruct (IH w') as (w'' & outs & Hrun2 & Hlen2 & Hpos2 & Hsum2 & Hout2 & Hall).
    { intros s' Hs'. apply Hl. by right. }
    { cbn. by rewrite length_insert. }
    { cbn. apply Forall_insert; [done|].
      pose proof (Forall_lookup_1 _ _ _ _ Hpos Hx) as H0. cbn in H0. lia. }
    exists w'', (out :: outs). split_and!; [|done|done| | |by constructor].
    + cbn. by rewrite (bind_run_Some _ _ _ _ _ Hrun).
    + rewrite Hsum2. cbn [healths set_healths w'].
      rewrite (sum_insert _ _ _ _ Hx). cbn [length]. lia.
    + rewrite Hout2, Hout. cbn [concat]. by rewrite app_assoc.
Qed.

(** X12: the output of the whole script is, for each seed from 0 to 65535 in
    this order, either nothing or the seed followed at once by its line of
    [findloop], and then the list of buckets as the last line. *)
Theorem main_output_structure (fuel : nat) :
  65536 ≤ Z.of_nat fuel →
  ∃ (w' : world) (outs : list (list line)),
    run_main fuel = Some (tt, w') ∧
    stdout w' = concat outs ++ [PrintList (healths w')] ∧
    Forall2 pass_output (seqZ 0 65536) outs.
Proof.
  intros Hfuel.
  destruct (for_each_sweep_full fuel (seqZ 0 65536) initial_world Hfuel)
    as (w1 & outs & Hrun & _ & _ & _ & Hout & Hall).
  { intros s Hs%elem_of_seqZ. lia. }
  { done. }
  { by repeat constructor. }
  exists (put_line (PrintList (healths w1)) w1), outs. split_and!; [| |done].
  - unfold run_main, main. by rewrite (bind_run_Some _ _ _ _ _ Hrun).
  - cbn [stdout healths put_line]. by rewrite Hout.
Qed.

(** The statement above at 65536 units of fuel. *)
Lemma main_output_structure_witness :
  65536 ≤ Z.of_nat (Z.to_nat 65536) ∧
  ∃ (w' : world) (outs : list (list line)),
    run_main (Z.to_nat 65536) = Some (tt, w') ∧
    stdout w' = concat outs ++ [PrintList (healths w')] ∧
    Forall2 pass_output (seqZ 0 65536) outs.
Proof. split; [lia|]. apply (main_output_structure (Z.to_nat 65536)). lia. Defined.

(** X13: each of the six buckets that the script prints is between 0 and
    65536. *)
Theorem main_buckets_bounds (fuel : nat) :
  65536 ≤ Z.of_nat fuel →
  ∃ (w' : world) (h : list Z),
    run_main fuel = Some (tt, w') ∧
    last (stdout w') = Some (PrintList h) ∧
    length h = 6%nat ∧
    Forall (λ x, 0 ≤ x ≤ 65536) h.
Proof.
  intros Hfuel.
  destruct (for_each_sweep_full fuel (seqZ 0 65536) initial_world Hfuel)
    as (w1 & outs & Hrun & Hlen & Hpos & Hsum & _ & _).
  { intros s Hs%elem_of_seqZ. lia. }
  { done. }
  { by repeat constructor. }
  exists (put_line (PrintList (healths w1)) w1), (healths w1).
  split_and!; [|apply last_snoc|done|].
  - unfold run_main, main. by rewrite (bind_run_Some _ _ _ _ _ Hrun).
  - rewrite length_seqZ in Hsum. change (sum (healths initial_world)) with 0 in Hsum.
    apply Forall_forall. intros x Hx. split.
    + by apply (proj1 (Forall_forall _ _) Hpos).
    + pose proof (sum_upper _ _ Hpos Hx). lia.
Qed.

(** The statement above at 65536 units of fuel. *)
Lemma main_buckets_bounds_witness :
  65536 ≤ Z.of_nat (Z.to_nat 65536) ∧
  ∃ (w' : world) (h : list Z),
    run_main (Z.to_nat 65536) = Some (tt, w') ∧
    last (stdout w') = Some (PrintList h) ∧
    length h = 6%nat ∧
    Forall (λ x, 0 ≤ x ≤ 65536) h.
Proof. split; [lia|]. apply (main_buckets_bounds (Z.to_nat 65536)). lia. Defined.
